(** * A shallow embedding of the [rbac_system] Anchor program
    (programs/rbac_system/src/lib.rs) and its specification.

    Modelling choices, read with the Rust source at hand:
    - A [Pubkey] is an opaque identifier, modelled as [N].
    - Accounts live at addresses.  A program-derived address (PDA) is named
      by its seeds ([AState] for [b"rbac_state"], [ARole n] for
      [b"role", n], [AUserRole u] for [b"user_role", u]); PDA derivation is
      taken to be collision free.  [AWallet k] is the system account of the
      signer [k].  Bump seeds are a function of the address and are left out,
      together with the [bump = x.bump] checks.
    - Each instruction runs atomically: it either returns [Ok] with the new
      store and the emitted events, or [Err] and the runtime discards all
      its effects.
    - Account validation follows Anchor's generated [try_accounts]: first
      the non-[init] accounts are deserialised in field order (an
      [Account<T>] with no [T] at its address fails), then the [init]
      accounts are created (PDA derivation, which refuses a seed longer
      than [MAX_SEED_LEN] bytes; an occupied address fails; the payer pays
      the rent), then the remaining constraints ([seeds], [has_one]) are
      checked; then the handler runs; on exit the mutable accounts are
      serialised back into their allocated space and [close] accounts are
      closed.
    - [Clock::get()] is the instruction's parameter [now].
    - Counters are [u32]; [+= 1] traps on overflow (Anchor's workspace
      profile sets [overflow-checks = true]). *)

From Stdlib Require Import ZArith.
From stdpp Require Import base countable gmap list strings.

Definition Pubkey := N.

Local Open Scope Z_scope.

(** ** Data model *)

Inductive Permission := Read | Create | Update | Delete | Admin.

#[global] Instance Permission_eq_dec : EqDecision Permission.
Proof. solve_decision. Defined.

Inductive Action :=
  | CreateResource | ReadResource | UpdateResource | DeleteResource
  | AdminOperation.

#[global] Instance Action_eq_dec : EqDecision Action.
Proof. solve_decision. Defined.

(** [pub struct RbacState] (the bump byte is left out) *)
Record RbacState := {
  admin : Pubkey;
  role_count : Z;
  user_count : Z;
}.

(** [pub struct Role] *)
Record Role := {
  name : string;
  permissions : list Permission;
  created_at : Z;
}.

(** [pub struct UserRole] *)
Record UserRole := {
  user : Pubkey;
  role : string;
  assigned_at : Z;
  assigned_by : Pubkey;
}.

(** [pub enum RbacError] *)
Inductive RbacError :=
  | RoleNameTooLong | RoleNotFound | UserRoleMismatch | PermissionDenied
  | NotAuthorized.

#[global] Instance RbacError_eq_dec : EqDecision RbacError.
Proof. solve_decision. Defined.

(** The errors an instruction can end with: the program's own
    ([Custom]) and those raised by Anchor's account validation and the
    runtime. *)
Inductive Error :=
  | Custom (e : RbacError)
  | AccountNotInitialized   (* system-owned address holding no lamports *)
  | AccountOwnedByWrongProgram  (* system-owned address holding lamports *)
  | AccountDiscriminatorMismatch  (* a program account of another type *)
  | AccountAlreadyInUse     (* [init] on an occupied address *)
  | InsufficientFunds       (* payer cannot pay the rent of an [init] *)
  | MaxSeedLengthExceeded   (* a PDA seed longer than 32 bytes *)
  | ConstraintSeeds         (* account not at the address its [seeds] give *)
  | ConstraintHasOne        (* [has_one] field differs from the account *)
  | AccountDidNotSerialize  (* data larger than the allocated [space] *)
  | ArithmeticOverflow.     (* [u32] overflow with overflow checks *)

#[global] Instance Error_eq_dec : EqDecision Error.
Proof. solve_decision. Defined.

(** The [#[event]] structs. *)
Inductive Event :=
  | RbacInitialized (admin : Pubkey) (timestamp : Z)
  | RoleCreated (name : string) (permissions : list Permission) (timestamp : Z)
  | RoleAssigned (user : Pubkey) (role : string) (assigned_by : Pubkey)
      (timestamp : Z)
  | PermissionChecked (user : Pubkey) (permission : Permission)
      (result : bool) (timestamp : Z)
  | RoleRevoked (user : Pubkey) (revoked_by : Pubkey) (timestamp : Z)
  | ActionExecuted (user : Pubkey) (action : Action)
      (permission : Permission) (timestamp : Z).

(** Account addresses. *)
Inductive Addr :=
  | AState
  | ARole (role_name : string)
  | AUserRole (u : Pubkey)
  | AWallet (k : Pubkey).

#[global] Instance Addr_eq_dec : EqDecision Addr.
Proof. solve_decision. Defined.

#[global] Program Instance Addr_countable : Countable Addr :=
  inj_countable'
    (λ a, match a with
          | AState => inl (inl tt)
          | ARole n => inl (inr n)
          | AUserRole u => inr (inl u)
          | AWallet k => inr (inr k)
          end : (unit + string) + (N + N))
    (λ c, match c with
          | inl (inl _) => AState
          | inl (inr n) => ARole n
          | inr (inl u) => AUserRole u
          | inr (inr k) => AWallet k
          end) _.
Next Obligation. by intros []. Qed.

(** The ledger as the program sees it: the [rbac_state] singleton, the
    [Role] accounts by role name, the [UserRole] accounts by user key, and
    the lamports held at each address (absent = 0). *)
Record Store := {
  rbac_state : option RbacState;
  roles : gmap string Role;
  user_roles : gmap Pubkey UserRole;
  lamports : gmap Addr Z;
}.

Definition bal (s : Store) (a : Addr) : Z := default 0 (lamports s !! a).

(** ** The error monad of an instruction *)

Inductive Result (A : Type) := Ok (a : A) | Err (e : Error).
Arguments Ok {A} a.
Arguments Err {A} e.

#[global] Instance Result_ret : MRet Result := λ A a, Ok a.
#[global] Instance Result_bind : MBind Result :=
  λ A B f m, match m with Ok a => f a | Err e => Err e end.

(** [require!(cond, err)] *)
Definition require (b : bool) (e : Error) : Result unit :=
  if b then Ok () else Err e.

(** ** Runtime constants *)

Definition MAX_SEED_LEN : nat := 32.

Definition RbacState_SIZE : Z := 32 + 4 + 4 + 1 + 64.
Definition Role_SIZE : Z := 4 + 32 + 4 + (5 * 1) + 8 + 1 + 128.
Definition UserRole_SIZE : Z := 32 + 4 + 32 + 8 + 32 + 1 + 64.

(** Borsh sizes of the account data (bump byte included). *)
Definition rbac_state_len : Z := 32 + 4 + 4 + 1.
Definition role_len (r : Role) : Z :=
  4 + Z.of_nat (String.length (name r)) + 4 + Z.of_nat (length (permissions r))
  + 8 + 1.
Definition user_role_len (ur : UserRole) : Z :=
  32 + 4 + Z.of_nat (String.length (role ur)) + 8 + 32 + 1.

(** Rent-exempt minimum of an account of [space] bytes (default rent:
    3480 lamports per byte-year, two years, 128 bytes of overhead). *)
Definition rent_exempt (space : Z) : Z := (128 + space) * 3480 * 2.

Definition u32_incr (x : Z) : Result Z :=
  if x + 1 <? 2 ^ 32 then Ok (x + 1) else Err ArithmeticOverflow.

(** ** Anchor account handling *)

(** Whether the program owns the account at [a], i.e. one of its
    accounts is stored there; every other address (a wallet, a PDA never
    created or one closed) is owned by the system program. *)
Definition program_owned (s : Store) (a : Addr) : bool :=
  match a with
  | AState => bool_decide (is_Some (rbac_state s))
  | ARole n => bool_decide (is_Some (roles s !! n))
  | AUserRole u => bool_decide (is_Some (user_roles s !! u))
  | AWallet _ => false
  end.

(** The error of [Account::try_from] at an address that holds no account
    of the expected type: a system-owned address with no lamports is
    uninitialised, a system-owned address with lamports is owned by the
    wrong program, and an account of this program of another type fails
    the discriminator check. *)
Definition load_error (s : Store) (a : Addr) : Error :=
  if program_owned s a then AccountDiscriminatorMismatch
  else if bool_decide (bal s a = 0) then AccountNotInitialized
  else AccountOwnedByWrongProgram.

(** [Account<'a, RbacState>] at the [b"rbac_state"] address. *)
Definition load_state (s : Store) : Result RbacState :=
  match rbac_state s with Some st => Ok st | None => Err (load_error s AState) end.

(** [Account<'a, Role>] at address [a]. *)
Definition load_role (s : Store) (a : Addr) : Result Role :=
  match a with
  | ARole n => match roles s !! n with
               | Some r => Ok r
               | None => Err (load_error s a)
               end
  | _ => Err (load_error s a)
  end.

(** [Account<'a, UserRole>] at address [a]. *)
Definition load_user_role (s : Store) (a : Addr) : Result UserRole :=
  match a with
  | AUserRole u => match user_roles s !! u with
                   | Some ur => Ok ur
                   | None => Err (load_error s a)
                   end
  | _ => Err (load_error s a)
  end.

(** The funding part of [init, payer = payer, space = space]: the payer
    tops the new account up to the rent-exempt minimum. *)
Definition pay_rent (s : Store) (payer : Pubkey) (a : Addr) (space : Z)
    : Result (gmap Addr Z) :=
  let required := Z.max 0 (rent_exempt space - bal s a) in
  require (required <=? bal s (AWallet payer)) InsufficientFunds ;;
  Ok (<[a := bal s a + required]>
        (<[AWallet payer := bal s (AWallet payer) - required]> (lamports s))).

(** [Vec::contains] *)
Fixpoint contains (p : Permission) (l : list Permission) : bool :=
  match l with
  | [] => false
  | q :: l' => bool_decide (q = p) || contains p l'
  end.

(** ** The instructions *)

(** [initialize] with the [Initialize] accounts: [rbac_state] is [init]
    at [b"rbac_state"] with [payer = admin]. *)
Definition initialize (s : Store) (caller : Pubkey) (now : Z)
    : Result (Store * list Event) :=
  (* init rbac_state *)
  require (bool_decide (rbac_state s = None)) AccountAlreadyInUse ;;
  lam ← pay_rent s caller AState (8 + RbacState_SIZE) ;
  (* handler *)
  let st := {| admin := caller; role_count := 0; user_count := 0 |} in
  (* Create admin role automatically *)
  let st := {| admin := admin st; role_count := 1; user_count := user_count st |} in
  let evs := [RbacInitialized caller now] in
  (* exit *)
  require (rbac_state_len <=? RbacState_SIZE) AccountDidNotSerialize ;;
  Ok ({| rbac_state := Some st; roles := roles s; user_roles := user_roles s;
         lamports := lam |}, evs).

(** [create_role] with the [CreateRole] accounts: [rbac_state] with
    [has_one = admin], [role] is [init] at [b"role", role_name] with
    [payer = admin]; the signer [admin] is the caller. *)
Definition create_role (s : Store) (caller : Pubkey) (role_name : string)
    (perms : list Permission) (now : Z) : Result (Store * list Event) :=
  st ← load_state s ;
  (* init role: PDA derivation, then allocation *)
  require (String.length role_name <=? MAX_SEED_LEN)%nat MaxSeedLengthExceeded ;;
  require (bool_decide (roles s !! role_name = None)) AccountAlreadyInUse ;;
  lam ← pay_rent s caller (ARole role_name) (8 + Role_SIZE) ;
  (* has_one = admin *)
  require (bool_decide (admin st = caller)) ConstraintHasOne ;;
  (* handler *)
  require (String.length role_name <=? 32)%nat (Custom RoleNameTooLong) ;;
  let r := {| name := role_name; permissions := perms; created_at := now |} in
  rc ← u32_incr (role_count st) ;
  let st' := {| admin := admin st; role_count := rc; user_count := user_count st |} in
  let evs := [RoleCreated (name r) (permissions r) (created_at r)] in
  (* exit *)
  require (role_len r <=? Role_SIZE) AccountDidNotSerialize ;;
  Ok ({| rbac_state := Some st'; roles := <[role_name := r]> (roles s);
         user_roles := user_roles s; lamports := lam |}, evs).

(** [assign_role] with the [AssignRole] accounts: [role] is read at
    [b"role", role_name], [user_role] is [init] at [b"user_role", user]
    with [payer = authority]; the signer [authority] is the caller. *)
Definition assign_role (s : Store) (caller : Pubkey) (u : Pubkey)
    (role_name : string) (now : Z) : Result (Store * list Event) :=
  st ← load_state s ;
  r ← load_role s (ARole role_name) ;
  (* init user_role *)
  require (bool_decide (user_roles s !! u = None)) AccountAlreadyInUse ;;
  lam ← pay_rent s caller (AUserRole u) (8 + UserRole_SIZE) ;
  (* handler *)
  require (bool_decide (name r = role_name)) (Custom RoleNotFound) ;;
  let ur := {| user := u; role := role_name; assigned_at := now;
               assigned_by := caller |} in
  uc ← u32_incr (user_count st) ;
  let st' := {| admin := admin st; role_count := role_count st; user_count := uc |} in
  let evs := [RoleAssigned u role_name caller (assigned_at ur)] in
  (* exit *)
  require (user_role_len ur <=? UserRole_SIZE) AccountDidNotSerialize ;;
  Ok ({| rbac_state := Some st'; roles := roles s;
         user_roles := <[u := ur]> (user_roles s); lamports := lam |}, evs).

(** [check_permission] with the [CheckPermission] accounts [role] (at
    address [ra]) and [user_role] (at address [ua]), chosen by the caller
    and constrained only by their [seeds]: [b"role", user_role.role] and
    [b"user_role", user_role.user]. *)
Definition check_permission (s : Store) (ra ua : Addr) (u : Pubkey)
    (permission : Permission) (now : Z) : Result (Store * list Event * bool) :=
  r ← load_role s ra ;
  ur ← load_user_role s ua ;
  require (bool_decide (ra = ARole (role ur))) ConstraintSeeds ;;
  require (bool_decide (ua = AUserRole (user ur))) ConstraintSeeds ;;
  (* handler *)
  require (bool_decide (role ur = name r)) (Custom UserRoleMismatch) ;;
  let has_permission := contains permission (permissions r) in
  let evs := [PermissionChecked u permission has_permission now] in
  Ok (s, evs, has_permission).

(** [revoke_role] with the [RevokeRole] accounts: [user_role] at
    [b"user_role", user] with [close = authority]; the signer [authority]
    is the caller. *)
Definition revoke_role (s : Store) (caller : Pubkey) (u : Pubkey) (now : Z)
    : Result (Store * list Event) :=
  _ ← load_user_role s (AUserRole u) ;
  (* handler *)
  let evs := [RoleRevoked u caller now] in
  (* exit: close = authority *)
  let lam := <[AWallet caller := bal s (AWallet caller) + bal s (AUserRole u)]>
               (lamports s) in
  let lam := <[AUserRole u := 0]> lam in
  Ok ({| rbac_state := rbac_state s; roles := roles s;
         user_roles := delete u (user_roles s); lamports := lam |}, evs).

(** The [match action] of [execute_action]. *)
Definition required_permission_of (action : Action) : Permission :=
  match action with
  | CreateResource => Create
  | ReadResource => Read
  | UpdateResource => Update
  | DeleteResource => Delete
  | AdminOperation => Admin
  end.

(** [execute_action] with the [ExecuteAction] accounts: [rbac_state],
    [role] (at [ra], seeds [b"role", user_role.role]) and [user_role] (at
    [ua], seeds [b"user_role", user.key()]); the signer [user] is the
    caller. *)
Definition execute_action (s : Store) (ra ua : Addr) (caller : Pubkey)
    (action : Action) (now : Z) : Result (Store * list Event) :=
  _ ← load_state s ;
  r ← load_role s ra ;
  ur ← load_user_role s ua ;
  require (bool_decide (ra = ARole (role ur))) ConstraintSeeds ;;
  require (bool_decide (ua = AUserRole caller)) ConstraintSeeds ;;
  (* handler *)
  require (bool_decide (role ur = name r)) (Custom UserRoleMismatch) ;;
  let required_permission := required_permission_of action in
  require (contains required_permission (permissions r)) (Custom PermissionDenied) ;;
  let evs := [ActionExecuted caller action required_permission now] in
  Ok (s, evs).

(** ** Transactions and reachable ledgers *)

Inductive Instr :=
  | IInitialize (caller : Pubkey)
  | ICreateRole (caller : Pubkey) (role_name : string) (perms : list Permission)
  | IAssignRole (caller : Pubkey) (u : Pubkey) (role_name : string)
  | ICheckPermission (ra ua : Addr) (u : Pubkey) (permission : Permission)
  | IRevokeRole (caller : Pubkey) (u : Pubkey)
  | IExecuteAction (ra ua : Addr) (caller : Pubkey) (action : Action).

Definition exec (i : Instr) (s : Store) (now : Z) : Result (Store * list Event) :=
  match i with
  | IInitialize c => initialize s c now
  | ICreateRole c n ps => create_role s c n ps now
  | IAssignRole c u n => assign_role s c u n now
  | ICheckPermission ra ua u p =>
      '(s', evs, _) ← check_permission s ra ua u p now ; Ok (s', evs)
  | IRevokeRole c u => revoke_role s c u now
  | IExecuteAction ra ua c a => execute_action s ra ua c a now
  end.

(** A transaction is atomic: on error the ledger is left as it was. *)
Definition apply_tx (i : Instr) (s : Store) (now : Z) : Store :=
  match exec i s now with Ok (s', _) => s' | Err _ => s end.

(** The ledger before the program's first instruction: no program
    account, any lamport balances. *)
Definition genesis (lam : gmap Addr Z) : Store :=
  {| rbac_state := None; roles := ∅; user_roles := ∅; lamports := lam |}.

Inductive reachable : Store → Prop :=
  | reach_genesis lam : reachable (genesis lam)
  | reach_step s i now s' evs :
      reachable s → exec i s now = Ok (s', evs) → reachable s'.

(** ** Invariant of reachable ledgers *)

(** Every [Role] is stored under its own name, every [UserRole] under
    its own user, and no such account exists before [rbac_state]. *)
Record inv (s : Store) : Prop := {
  inv_role_key : map_Forall (λ k r, name r = k) (roles s);
  inv_role_len : map_Forall (λ k _, String.length k ≤ MAX_SEED_LEN)%nat (roles s);
  inv_user_key : map_Forall (λ k ur, user ur = k) (user_roles s);
  inv_state : rbac_state s = None → roles s = ∅ ∧ user_roles s = ∅;
}.

(** ** A concrete run: the spec's end-to-end scenario *)

(** Wallets 1 (the administrator) and 2 hold 10 SOL each. *)
Definition demo_genesis : Store :=
  genesis (<[AWallet 1%N := 10 ^ 10]> (<[AWallet 2%N := 10 ^ 10]> ∅)).
Definition demo_init : Store := apply_tx (IInitialize 1%N) demo_genesis 100.
Definition demo_role : Store :=
  apply_tx (ICreateRole 1%N "moderator" [Read; Update]) demo_init 101.
Definition demo_assigned : Store :=
  apply_tx (IAssignRole 1%N 5%N "moderator") demo_role 102.

(** Role names of 32 and 33 bytes. *)
Definition name32 : string := "role_name_of_exactly_32_bytes_xx".
Definition name33 : string := "role_name_of_exactly_33_bytes_xxx".

(** The result of a [check_permission] call, without its effects. *)
Definition check_result (r : Result (Store * list Event * bool)) : Result bool :=
  match r with Ok (_, _, b) => Ok b | Err e => Err e end.

(** The lamports held by all the addresses of the ledger. *)
Definition total_lamports (s : Store) : Z :=
  map_fold (λ _ v acc, v + acc) 0 (lamports s).

(** * Proofs *)

Section Monad.

Lemma bind_Ok {A B} (m : Result A) (f : A → Result B) (b : B) :
  (m ≫= f) = Ok b ↔ ∃ a, m = Ok a ∧ f a = Ok b.
Proof.
  split.
  - destruct m as [a|e]; cbn; [eauto | discriminate].
  - intros (a & -> & H). exact H.
Qed.

Lemma require_Ok b e u : require b e = Ok u ↔ b = true.
Proof. destruct b, u; cbn; split; congruence. Qed.

Lemma bind_Err {A B} (m : Result A) (f : A → Result B) e :
  m = Err e → (m ≫= f) = Err e.
Proof. by intros ->. Qed.

End Monad.

(** A failed account load is one of Anchor's account errors, never an
    error of the program's own. *)
Lemma load_error_cases s a :
  load_error s a = AccountDiscriminatorMismatch ∨
  load_error s a = AccountNotInitialized ∨
  load_error s a = AccountOwnedByWrongProgram.
Proof.
  unfold load_error. destruct (program_owned s a); [by left|].
  case_bool_decide; [by right; left | by right; right].
Qed.

Lemma load_error_not_custom {A} s a e : (Err (load_error s a) : Result A) ≠ Err (Custom e).
Proof. destruct (load_error_cases s a) as [-> | [-> | ->]]; congruence. Qed.

Ltac nc := first [congruence | apply load_error_not_custom | case_bool_decide; congruence].

(** Take a successful run apart, one [?] and one [require!] at a time. *)
Ltac tx_inv :=
  unfold require, load_state, load_role, load_user_role, u32_incr, pay_rent in *;
  repeat match goal with
  | H : (_ ≫= _) = Ok _ |- _ =>
      let a := fresh "a" in let Ha := fresh "Ha" in
      apply bind_Ok in H as (a & Ha & H)
  | H : bool_decide _ = true |- _ => apply bool_decide_eq_true in H
  | H : Ok _ = Ok _ |- _ => injection H as H
  | H : (_, _) = (_, _) |- _ => injection H as H
  | H : require _ _ = Ok _ |- _ => unfold require in H
  | H : (match ?x with _ => _ end) = Ok _ |- _ =>
      destruct x eqn:?; cbn in H; try discriminate
  end; subst.

Section Invariant.

Lemma inv_genesis lam : inv (genesis lam).
Proof. split; cbn; try apply map_Forall_empty; done. Qed.

Lemma exec_inv i s now s' evs :
  inv s → exec i s now = Ok (s', evs) → inv s'.
Proof.
  intros [Hr Hl Hu Hs] H.
  destruct i; cbn [exec] in H.
  - unfold initialize in H. tx_inv. constructor; cbn; try done.
  - unfold create_role in H. tx_inv. constructor; cbn; try done.
    + by apply map_Forall_insert_2.
    + apply map_Forall_insert_2; [|done]. by apply Nat.leb_le.
  - unfold assign_role in H. tx_inv. constructor; cbn; try done.
    + by apply map_Forall_insert_2.
  - destruct (check_permission s ra ua u permission now) as [[[s0 e0] b0]|] eqn:E;
      cbn in H; [|discriminate].
    unfold check_permission in E. tx_inv. constructor; done.
  - unfold revoke_role in H. tx_inv. constructor; cbn; try done.
    + by apply (map_Forall_delete (λ k ur, user ur = k)).
    + intros Hn. destruct (Hs Hn) as [_ Hn']. rewrite Hn' in *. simplify_map_eq.
  - unfold execute_action in H. tx_inv. constructor; try done. intros; congruence.
Qed.

Lemma reachable_inv s : reachable s → inv s.
Proof.
  induction 1; [apply inv_genesis | by eapply exec_inv].
Qed.

End Invariant.

Section Basics.

Lemma contains_spec p l : contains p l = true ↔ p ∈ l.
Proof.
  induction l as [|q l IH]; cbn.
  - rewrite elem_of_nil. split; [discriminate | done].
  - rewrite orb_true_iff, elem_of_cons, IH, bool_decide_eq_true. naive_solver.
Qed.

Lemma reachable_apply_tx i s now : reachable s → reachable (apply_tx i s now).
Proof.
  intros Hs. unfold apply_tx.
  destruct (exec i s now) as [[s' evs]|] eqn:E; [|done].
  by eapply reach_step.
Qed.

Lemma reachable_state_of_user s u ur :
  reachable s → user_roles s !! u = Some ur → ∃ st, rbac_state s = Some st.
Proof.
  intros Hs Hu. destruct (reachable_inv s Hs) as [_ _ _ Hst].
  destruct (rbac_state s) as [st|] eqn:E; [by eauto|].
  destruct (Hst eq_refl) as [_ He]. by rewrite He, lookup_empty in Hu.
Qed.

End Basics.

Lemma demo_assigned_reachable : reachable demo_assigned.
Proof. repeat apply reachable_apply_tx. apply reach_genesis. Qed.

(** ** C1: decision correctness of [check_permission] *)

(** C1.  For a user [u] whose [UserRole] account (stored for [u], with
    [user = u]) names a role [R] that exists under that name and whose
    [name] matches, [check_permission] on [u]'s accounts succeeds and
    returns [true] exactly when [p] is in [R]'s permission vector. *)
Theorem check_permission_iff_member (s : Store) (u : Pubkey) (ur : UserRole)
    (R : Role) (p : Permission) (now : Z) :
  user_roles s !! u = Some ur → user ur = u →
  roles s !! role ur = Some R → name R = role ur →
  ∃ evs b, check_permission s (ARole (role ur)) (AUserRole u) u p now = Ok (s, evs, b)
         ∧ (b = true ↔ p ∈ permissions R).
Proof.
  intros Hu Huser Hr Hname. unfold check_permission; cbn.
  rewrite Hr, Hu; cbn. rewrite Huser, Hname.
  rewrite !bool_decide_eq_true_2 by done; cbn.
  eexists _, _. split; [reflexivity | apply contains_spec].
Qed.

Lemma check_permission_iff_member_witness :
  ∃ ur R, user_roles demo_assigned !! 5%N = Some ur ∧ user ur = 5%N ∧
    roles demo_assigned !! role ur = Some R ∧ name R = role ur ∧
    ∃ evs b, check_permission demo_assigned (ARole (role ur)) (AUserRole 5%N) 5%N
               Update 103 = Ok (demo_assigned, evs, b)
           ∧ (b = true ↔ Update ∈ permissions R).
Proof.
  do 2 eexists. split; [vm_compute; reflexivity|].
  split; [reflexivity|]. split; [vm_compute; reflexivity|].
  split; [reflexivity|].
  apply check_permission_iff_member; [vm_compute; reflexivity | reflexivity |
    vm_compute; reflexivity | reflexivity].
Defined.

(** ** C2: [execute_action] succeeds exactly on the mapped permission *)

(** C2.  In a reachable ledger, for a caller with a [UserRole] account
    naming a role [R] stored under that name with a matching [name],
    [execute_action] on the caller's accounts succeeds (and changes no
    account) iff the permission given by the action table
    [required_permission_of] is in [R]'s permissions, and otherwise fails
    with [PermissionDenied]. *)
Theorem execute_action_iff_permission (s : Store) (caller : Pubkey)
    (ur : UserRole) (R : Role) (action : Action) (now : Z) :
  reachable s →
  user_roles s !! caller = Some ur →
  roles s !! role ur = Some R → name R = role ur →
  ((∃ s' evs, execute_action s (ARole (role ur)) (AUserRole caller) caller action now
              = Ok (s', evs)) ↔ required_permission_of action ∈ permissions R) ∧
  (required_permission_of action ∈ permissions R →
     execute_action s (ARole (role ur)) (AUserRole caller) caller action now
     = Ok (s, [ActionExecuted caller action (required_permission_of action) now])) ∧
  (required_permission_of action ∉ permissions R →
     execute_action s (ARole (role ur)) (AUserRole caller) caller action now
     = Err (Custom PermissionDenied)).
Proof.
  intros Hs Hu Hr Hname.
  destruct (reachable_state_of_user s caller ur Hs Hu) as [st Hst].
  assert (Hrun : execute_action s (ARole (role ur)) (AUserRole caller) caller action now
    = if contains (required_permission_of action) (permissions R)
      then Ok (s, [ActionExecuted caller action (required_permission_of action) now])
      else Err (Custom PermissionDenied)).
  { unfold execute_action, load_state, load_role, load_user_role; cbn.
    rewrite Hst, Hr, Hu; cbn. rewrite Hname.
    rewrite !bool_decide_eq_true_2 by done; cbn.
    unfold require. by destruct (contains _ _). }
  rewrite Hrun, <- contains_spec.
  destruct (contains _ _); split_and!; intros; try done; naive_solver.
Qed.

Lemma execute_action_iff_permission_witness :
  execute_action demo_assigned (ARole "moderator") (AUserRole 5%N) 5%N
    DeleteResource 103 = Err (Custom PermissionDenied).
Proof.
  refine (proj2 (proj2 (execute_action_iff_permission demo_assigned 5%N
    {| user := 5%N; role := "moderator"; assigned_at := 102; assigned_by := 1%N |}
    {| name := "moderator"; permissions := [Read; Update]; created_at := 101 |}
    DeleteResource 103 demo_assigned_reachable _ _ _)) _).
  - vm_compute; reflexivity.
  - vm_compute; reflexivity.
  - reflexivity.
  - cbn. rewrite !elem_of_cons, elem_of_nil. intuition discriminate.
Defined.

(** ** C3: only the administrator creates roles *)

(** C3 as stated fails: a caller other than the administrator is refused
    by the [has_one = admin] constraint, whose error is Anchor's
    [ConstraintHasOne], not [RbacError::NotAuthorized]. *)
Lemma create_role_non_admin_counterexample :
  (∃ st, rbac_state demo_init = Some st ∧ admin st ≠ 2%N) ∧
  create_role demo_init 2%N "editor" [Read] 104 = Err ConstraintHasOne ∧
  create_role demo_init 2%N "editor" [Read] 104 ≠ Err (Custom NotAuthorized).
Proof.
  split; [|split].
  - eexists. split; [vm_compute; reflexivity | discriminate].
  - vm_compute. reflexivity.
  - vm_compute. discriminate.
Qed.

(** C3 (amended).  For every caller other than the administrator,
    [create_role] fails and the transaction leaves the ledger (role store
    and [role_count] included) unchanged; the error is [ConstraintHasOne],
    or an account error met before that check (seed too long, name taken,
    rent not payable); it is never [NotAuthorized]. *)
Theorem create_role_non_admin_fails (s : Store) (st : RbacState)
    (caller : Pubkey) (role_name : string) (perms : list Permission) (now : Z) :
  rbac_state s = Some st → admin st ≠ caller →
  ∃ e, create_role s caller role_name perms now = Err e ∧
       e ∈ [MaxSeedLengthExceeded; AccountAlreadyInUse; InsufficientFunds;
            ConstraintHasOne] ∧
       e ≠ Custom NotAuthorized ∧
       apply_tx (ICreateRole caller role_name perms) s now = s.
Proof.
  intros Hst Hne.
  assert (∃ e, create_role s caller role_name perms now = Err e ∧
     e ∈ [MaxSeedLengthExceeded; AccountAlreadyInUse; InsufficientFunds;
          ConstraintHasOne]) as (e & He & Hin).
  { unfold create_role, load_state, pay_rent, require; cbn. rewrite Hst; cbn.
    destruct (_ <=? MAX_SEED_LEN)%nat; cbn; [|eexists; split; [done | set_solver]].
    destruct (bool_decide (roles s !! role_name = None)); cbn;
      [|eexists; split; [done | set_solver]].
    destruct (_ <=? bal s (AWallet caller)); cbn;
      [|eexists; split; [done | set_solver]].
    rewrite bool_decide_eq_false_2 by done; cbn.
    eexists; split; [done | set_solver]. }
  exists e. split_and!; [done | done | |].
  - intros ->. set_solver.
  - unfold apply_tx; cbn. by rewrite He.
Qed.

Lemma create_role_non_admin_fails_witness :
  ∃ e, create_role demo_init 2%N "editor" [Read] 104 = Err e ∧
       e ∈ [MaxSeedLengthExceeded; AccountAlreadyInUse; InsufficientFunds;
            ConstraintHasOne] ∧
       e ≠ Custom NotAuthorized ∧
       apply_tx (ICreateRole 2%N "editor" [Read]) demo_init 104 = demo_init.
Proof.
  apply (create_role_non_admin_fails demo_init
    {| admin := 1%N; role_count := 1; user_count := 0 |});
    [vm_compute; reflexivity | discriminate].
Defined.

(** ** C4: [initialize] *)

(** C4 as stated fails: a successful [initialize] stores [role_count = 1]
    (the "Create admin role automatically" line), not 0. *)
Lemma initialize_counterexample :
  ∃ s' evs, initialize demo_genesis 1%N 100 = Ok (s', evs) ∧
    rbac_state s' = Some {| admin := 1%N; role_count := 1; user_count := 0 |}.
Proof. do 2 eexists. split; vm_compute; reflexivity. Qed.

(** C4 (amended).  A successful [initialize caller] requires that no
    [rbac_state] exists, and creates it with [admin = caller],
    [role_count = 1] (no [Role] account goes with it) and
    [user_count = 0], leaving the role and assignment stores alone; when
    [rbac_state] already exists it fails with the key-conflict error
    (the only other failure is the payer's rent). *)
Theorem initialize_spec (s : Store) (caller : Pubkey) (now : Z) :
  match initialize s caller now with
  | Ok (s', evs) =>
      rbac_state s = None ∧
      rbac_state s' = Some {| admin := caller; role_count := 1; user_count := 0 |} ∧
      roles s' = roles s ∧ user_roles s' = user_roles s ∧
      evs = [RbacInitialized caller now]
  | Err e =>
      (rbac_state s ≠ None ∧ e = AccountAlreadyInUse) ∨
      (rbac_state s = None ∧ e = InsufficientFunds)
  end.
Proof.
  unfold initialize, pay_rent, require; cbn.
  destruct (rbac_state s) as [st|] eqn:Hst; cbn; [by left|].
  destruct (_ <=? bal s (AWallet caller)); cbn; [|by right].
  done.
Qed.

(** ** C5: one assignment per user, one role per name *)

Lemma reachable_state_of_role s n r :
  reachable s → roles s !! n = Some r → ∃ st, rbac_state s = Some st.
Proof.
  intros Hs Hr. destruct (reachable_inv s Hs) as [_ _ _ Hst].
  destruct (rbac_state s) as [st|] eqn:E; [by eauto|].
  destruct (Hst eq_refl) as [He _]. by rewrite He, lookup_empty in Hr.
Qed.

(** C5.  In every reachable ledger at most one [UserRole] account holds
    a given user and at most one [Role] account a given name.
    [assign_role] for a user with a live assignment always fails, leaving
    the ledger unchanged, and when the named role exists (the spec's role
    lookup comes first) the error is the key conflict of the [init] of
    [user_role]; [revoke_role] removes the assignment.  [create_role] with
    a name already present fails with the key-conflict error, leaving the
    ledger unchanged. *)
Theorem unique_assignment_and_role (s : Store) :
  reachable s →
  (∀ k1 k2 ur1 ur2, user_roles s !! k1 = Some ur1 → user_roles s !! k2 = Some ur2 →
     user ur1 = user ur2 → k1 = k2) ∧
  (∀ k1 k2 r1 r2, roles s !! k1 = Some r1 → roles s !! k2 = Some r2 →
     name r1 = name r2 → k1 = k2) ∧
  (∀ caller u role_name now, is_Some (user_roles s !! u) →
     ∃ e, assign_role s caller u role_name now = Err e ∧
          apply_tx (IAssignRole caller u role_name) s now = s ∧
          (is_Some (roles s !! role_name) → e = AccountAlreadyInUse)) ∧
  (∀ caller u now s' evs, revoke_role s caller u now = Ok (s', evs) →
     user_roles s' !! u = None) ∧
  (∀ caller role_name perms now, is_Some (roles s !! role_name) →
     create_role s caller role_name perms now = Err AccountAlreadyInUse ∧
     apply_tx (ICreateRole caller role_name perms) s now = s).
Proof.
  intros Hs. destruct (reachable_inv s Hs) as [Hr Hl Hu Hst].
  split_and!.
  - intros k1 k2 ur1 ur2 H1 H2 Heq.
    rewrite <- (Hu k1 ur1 H1), <- (Hu k2 ur2 H2). done.
  - intros k1 k2 r1 r2 H1 H2 Heq.
    rewrite <- (Hr k1 r1 H1), <- (Hr k2 r2 H2). done.
  - intros caller u role_name now [ur Hur].
    destruct (reachable_state_of_user s u ur Hs Hur) as [st Est].
    assert (Hrun : assign_role s caller u role_name now =
              Err (if roles s !! role_name then AccountAlreadyInUse
                   else load_error s (ARole role_name))).
    { unfold assign_role, load_state, load_role, require; cbn.
      rewrite Est; cbn. destruct (roles s !! role_name); cbn; [|done].
      rewrite (bool_decide_eq_false_2 (user_roles s !! u = None)); [reflexivity|].
      by rewrite Hur. }
    eexists. split; [exact Hrun|]. split.
    + unfold apply_tx; cbn. by rewrite Hrun.
    + intros [r Hrn]. by rewrite Hrn.
  - intros caller u now s' evs H. unfold revoke_role in H. tx_inv.
    cbn. apply lookup_delete_eq.
  - intros caller role_name perms now [r Hrn].
    destruct (reachable_state_of_role s role_name r Hs Hrn) as [st Est].
    assert (Hrun : create_role s caller role_name perms now = Err AccountAlreadyInUse).
    { unfold create_role, load_state, require; cbn. rewrite Est; cbn.
      rewrite (proj2 (Nat.leb_le _ _) (Hl role_name r Hrn)); cbn.
      rewrite (bool_decide_eq_false_2 (roles s !! role_name = None)); [reflexivity|].
      by rewrite Hrn. }
    split; [done|]. unfold apply_tx; cbn. by rewrite Hrun.
Qed.

Lemma unique_assignment_and_role_witness :
  assign_role demo_assigned 2%N 5%N "moderator" 103 = Err AccountAlreadyInUse.
Proof.
  destruct (unique_assignment_and_role demo_assigned demo_assigned_reachable)
    as (_ & _ & Hassign & _ & _).
  destruct (Hassign 2%N 5%N "moderator" 103) as (e & He & _ & Hk);
    [vm_compute; by eexists|].
  rewrite He, Hk; [reflexivity|]. vm_compute. by eexists.
Defined.

(** ** C6: the role-name length bound *)

(** C6.  The name is also the PDA seed of the [role] account, derived
    during account validation before the handler's [require!]; a seed
    longer than 32 bytes is refused there, so [create_role] never ends
    with [RoleNameTooLong].  At the failing input, a 33-byte name sent by
    the administrator fails with [MaxSeedLengthExceeded] and a 32-byte
    name is created. *)
Theorem create_role_name_length_code (s : Store) (caller : Pubkey)
    (role_name : string) (perms : list Permission) (now : Z) :
  create_role s caller role_name perms now ≠ Err (Custom RoleNameTooLong) ∧
  String.length name33 = 33%nat ∧ String.length name32 = 32%nat ∧
  create_role demo_init 1%N name33 [Read] 104 = Err MaxSeedLengthExceeded ∧
  (∃ s' evs, create_role demo_init 1%N name32 [Read] 104 = Ok (s', evs) ∧
             roles s' !! name32 =
               Some {| name := name32; permissions := [Read]; created_at := 104 |}).
Proof.
  split_and!; [| reflexivity | reflexivity | vm_compute; reflexivity |
               do 2 eexists; split; vm_compute; reflexivity].
  unfold create_role, load_state, pay_rent, require; cbn.
  destruct (rbac_state s) as [st|]; cbn; [|apply load_error_not_custom].
  destruct (String.length role_name <=? MAX_SEED_LEN)%nat eqn:Hlen; cbn;
    [|congruence].
  destruct (bool_decide (roles s !! role_name = None)); cbn; [|congruence].
  destruct (_ <=? bal s (AWallet caller)); cbn; [|congruence].
  destruct (bool_decide (admin st = caller)); cbn; [|congruence].
  unfold MAX_SEED_LEN in Hlen. rewrite Hlen; cbn.
  unfold u32_incr. destruct (role_count st + 1 <? 2 ^ 32); cbn; [|congruence].
  destruct (_ <=? Role_SIZE); cbn; congruence.
Qed.

(** ** C7: [revoke_role] *)

(** C7.  When [user]'s assignment exists, [revoke_role] deletes exactly
    that [UserRole] account and pays its lamports to the caller; the
    [rbac_state] singleton ([admin], [role_count], and [user_count], which
    is not decremented), every [Role] account, every other assignment and
    every other balance are unchanged. *)
Theorem revoke_role_frame (s : Store) (caller u : Pubkey) (ur : UserRole) (now : Z) :
  user_roles s !! u = Some ur →
  ∃ s', revoke_role s caller u now = Ok (s', [RoleRevoked u caller now]) ∧
    user_roles s' !! u = None ∧
    (∀ k, k ≠ u → user_roles s' !! k = user_roles s !! k) ∧
    rbac_state s' = rbac_state s ∧
    roles s' = roles s ∧
    bal s' (AUserRole u) = 0 ∧
    bal s' (AWallet caller) = bal s (AWallet caller) + bal s (AUserRole u) ∧
    (∀ a, a ≠ AUserRole u → a ≠ AWallet caller → bal s' a = bal s a).
Proof.
  intros Hu. unfold revoke_role, load_user_role; cbn. rewrite Hu; cbn.
  eexists. split; [reflexivity|]. unfold bal; cbn.
  split_and!.
  - apply lookup_delete_eq.
  - intros k Hk. by apply lookup_delete_ne.
  - done.
  - done.
  - by rewrite lookup_insert_eq.
  - rewrite lookup_insert_ne, lookup_insert_eq by done. done.
  - intros a H1 H2. by rewrite !lookup_insert_ne.
Qed.

Lemma revoke_role_frame_witness :
  ∃ s', revoke_role demo_assigned 1%N 5%N 104 = Ok (s', [RoleRevoked 5%N 1%N 104]) ∧
    user_roles s' !! 5%N = None ∧
    (∀ k, k ≠ 5%N → user_roles s' !! k = user_roles demo_assigned !! k) ∧
    rbac_state s' = rbac_state demo_assigned ∧
    roles s' = roles demo_assigned ∧
    bal s' (AUserRole 5%N) = 0 ∧
    bal s' (AWallet 1%N) = bal demo_assigned (AWallet 1%N) + bal demo_assigned (AUserRole 5%N) ∧
    (∀ a, a ≠ AUserRole 5%N → a ≠ AWallet 1%N → bal s' a = bal demo_assigned a).
Proof.
  apply (revoke_role_frame demo_assigned 1%N 5%N
    {| user := 5%N; role := "moderator"; assigned_at := 102; assigned_by := 1%N |}).
  vm_compute. reflexivity.
Defined.

(** ** C8: [check_permission] audits and changes nothing *)

(** C8.  A successful [check_permission] leaves the ledger as it was and
    emits exactly one [PermissionChecked] event, whose [user], [permission]
    and [timestamp] are the call's and whose [result] is the returned
    boolean. *)
Theorem check_permission_audit (s : Store) (ra ua : Addr) (u : Pubkey)
    (p : Permission) (now : Z) (s' : Store) (evs : list Event) (b : bool) :
  check_permission s ra ua u p now = Ok (s', evs, b) →
  s' = s ∧ evs = [PermissionChecked u p b now].
Proof. intros H. unfold check_permission in H. tx_inv. done. Qed.

Lemma check_permission_audit_witness :
  check_permission demo_assigned (ARole "moderator") (AUserRole 5%N) 5%N Delete 103
    = Ok (demo_assigned, [PermissionChecked 5%N Delete false 103], false) ∧
  demo_assigned = demo_assigned ∧
  [PermissionChecked 5%N Delete false 103] = [PermissionChecked 5%N Delete false 103].
Proof.
  assert (H : check_permission demo_assigned (ARole "moderator") (AUserRole 5%N) 5%N
                Delete 103
              = Ok (demo_assigned, [PermissionChecked 5%N Delete false 103], false))
    by (vm_compute; reflexivity).
  split; [exact H|]. exact (check_permission_audit _ _ _ _ _ _ _ _ _ H).
Defined.

(** ** C9: the [user] argument does not influence the decision *)

(** C9.  Two [check_permission] calls on the same accounts that differ
    only in the [user] argument have the same outcome (same error, or
    same ledger and same boolean); [user] only appears in the emitted
    event. *)
Theorem check_permission_user_independent (s : Store) (ra ua : Addr)
    (u1 u2 : Pubkey) (p : Permission) (now : Z) :
  check_result (check_permission s ra ua u1 p now) =
  check_result (check_permission s ra ua u2 p now) ∧
  check_permission s ra ua u2 p now =
    match check_permission s ra ua u1 p now with
    | Ok (s', _, b) => Ok (s', [PermissionChecked u2 p b now], b)
    | Err e => Err e
    end.
Proof.
  unfold check_permission, load_role, load_user_role, require.
  destruct ra as [|n| |]; cbn; try done.
  destruct (roles s !! n); cbn; try done.
  destruct ua as [| |k|]; cbn; try done.
  destruct (user_roles s !! k); cbn; try done.
  repeat (case_bool_decide; cbn); done.
Qed.

(** ** C10: roles are stored under their names and never change *)

Lemma exec_roles_preserved i s now s' evs k r :
  exec i s now = Ok (s', evs) → roles s !! k = Some r → roles s' !! k = Some r.
Proof.
  intros H Hk. destruct i; cbn [exec] in H.
  - unfold initialize in H. tx_inv. done.
  - unfold create_role in H. tx_inv. cbn.
    rewrite lookup_insert_ne; [done|]. intros ->. congruence.
  - unfold assign_role in H. tx_inv. done.
  - destruct (check_permission s ra ua u permission now) as [[[s0 e0] b0]|] eqn:E;
      cbn in H; [|discriminate].
    unfold check_permission in E. tx_inv. done.
  - unfold revoke_role in H. tx_inv. done.
  - unfold execute_action in H. tx_inv. done.
Qed.

(** C10.  In a reachable ledger every [Role] is stored under its own
    name, no instruction changes or removes an existing [Role], and
    neither [check_permission] nor [execute_action] can end with
    [UserRoleMismatch]. *)
Theorem role_mismatch_unreachable (s : Store) :
  reachable s →
  map_Forall (λ k r, name r = k) (roles s) ∧
  (∀ i now s' evs k r, exec i s now = Ok (s', evs) →
     roles s !! k = Some r → roles s' !! k = Some r) ∧
  (∀ ra ua u p now,
     check_permission s ra ua u p now ≠ Err (Custom UserRoleMismatch)) ∧
  (∀ ra ua caller action now,
     execute_action s ra ua caller action now ≠ Err (Custom UserRoleMismatch)).
Proof.
  intros Hs. destruct (reachable_inv s Hs) as [Hr _ _ _].
  split_and!; [done | intros; by eapply exec_roles_preserved | |].
  - intros ra ua u p now.
    unfold check_permission, load_role, load_user_role, require.
    destruct ra as [|n| |]; cbn; try nc.
    destruct (roles s !! n) as [r|] eqn:Er; cbn; [|nc].
    destruct ua as [| |k|]; cbn; try nc.
    destruct (user_roles s !! k) as [ur|]; cbn; [|nc].
    destruct (decide (ARole n = ARole (role ur))) as [Hra|Hra];
      [rewrite (bool_decide_eq_true_2 (ARole n = _)) by done
      |rewrite (bool_decide_eq_false_2 (ARole n = _)) by done; cbn; congruence].
    cbn. destruct (decide (AUserRole k = AUserRole (user ur))) as [Hua|Hua];
      [rewrite (bool_decide_eq_true_2 (AUserRole k = _)) by done
      |rewrite (bool_decide_eq_false_2 (AUserRole k = _)) by done; cbn; congruence].
    injection Hra as Hra. cbn.
    rewrite (Hr n r Er), <- Hra, bool_decide_eq_true_2 by done.
    cbn. congruence.
  - intros ra ua caller action now.
    unfold execute_action, load_state, load_role, load_user_role, require.
    destruct (rbac_state s) as [st|]; cbn; [|nc].
    destruct ra as [|n| |]; cbn; try nc.
    destruct (roles s !! n) as [r|] eqn:Er; cbn; [|nc].
    destruct ua as [| |k|]; cbn; try nc.
    destruct (user_roles s !! k) as [ur|]; cbn; [|nc].
    destruct (decide (ARole n = ARole (role ur))) as [Hra|Hra];
      [rewrite (bool_decide_eq_true_2 (ARole n = _)) by done
      |rewrite (bool_decide_eq_false_2 (ARole n = _)) by done; cbn; congruence].
    cbn. destruct (decide (AUserRole k = AUserRole caller)) as [Hua|Hua];
      [rewrite (bool_decide_eq_true_2 (AUserRole k = _)) by done
      |rewrite (bool_decide_eq_false_2 (AUserRole k = _)) by done; cbn; congruence].
    injection Hra as Hra. cbn.
    rewrite (Hr n r Er), <- Hra, bool_decide_eq_true_2 by done.
    cbn. destruct (contains _ _); cbn; congruence.
Qed.

Lemma role_mismatch_unreachable_witness :
  check_permission demo_assigned (ARole "moderator") (AUserRole 5%N) 5%N Read 103
    ≠ Err (Custom UserRoleMismatch).
Proof.
  destruct (role_mismatch_unreachable demo_assigned demo_assigned_reachable)
    as (_ & _ & Hc & _).
  apply Hc.
Defined.

(** * Further properties of the program *)

(** Turn the boolean tests of a run into propositions. *)
Ltac bool_facts :=
  repeat match goal with
  | H : Nat.leb _ _ = true |- _ => apply Nat.leb_le in H
  | H : Nat.leb _ _ = false |- _ => apply Nat.leb_gt in H
  | H : Z.leb _ _ = true |- _ => apply Z.leb_le in H
  | H : Z.leb _ _ = false |- _ => apply Z.leb_gt in H
  | H : Z.ltb _ _ = true |- _ => apply Z.ltb_lt in H
  | H : Z.ltb _ _ = false |- _ => apply Z.ltb_ge in H
  | H : bool_decide _ = true |- _ => apply bool_decide_eq_true in H
  | H : bool_decide _ = false |- _ => apply bool_decide_eq_false in H
  end.

(** ** [create_role] *)

(** X1.  On an initialised ledger, [create_role] succeeds exactly when
    the name has at most 32 bytes, no role of that name exists, the
    caller can pay the rent, the caller is the administrator, [role_count]
    can be incremented in [u32], and the name and permission vector fit
    the account ([len(name) + len(permissions) ≤ 165]). *)
Theorem create_role_succeeds_iff (s : Store) (st : RbacState) (caller : Pubkey)
    (role_name : string) (perms : list Permission) (now : Z) :
  rbac_state s = Some st →
  (∃ s' evs, create_role s caller role_name perms now = Ok (s', evs)) ↔
  (String.length role_name ≤ 32)%nat ∧ roles s !! role_name = None ∧
  Z.max 0 (rent_exempt (8 + Role_SIZE) - bal s (ARole role_name))
    ≤ bal s (AWallet caller) ∧
  admin st = caller ∧ role_count st + 1 < 2 ^ 32 ∧
  (String.length role_name + length perms ≤ 165)%nat.
Proof.
  intros Hst.
  unfold create_role, load_state, pay_rent, require, u32_incr, role_len,
    MAX_SEED_LEN, Role_SIZE. rewrite Hst; cbn.
  repeat (case_match; cbn); bool_facts; split.
  all: try (intros (? & ? & ?); discriminate).
  all: try (intros _; split_and!; done || lia).
  all: try (intros; by do 2 eexists).
  all: intros (? & ? & ? & ? & ? & ?); exfalso; (congruence || lia).
Qed.

Lemma create_role_succeeds_iff_witness :
  ∃ s' evs, create_role demo_init 1%N "editor" [Read; Update] 104 = Ok (s', evs).
Proof.
  apply (create_role_succeeds_iff demo_init
    {| admin := 1%N; role_count := 1; user_count := 0 |});
    [vm_compute; reflexivity|].
  vm_compute. split_and!; try done; try lia.
Defined.

(** X2.  A successful [create_role] stores the role under its name with
    the given name, permission vector and [created_at = now] (so loading
    the role account back yields exactly that record), adds one to
    [role_count], leaves [admin], [user_count] and the assignments alone,
    and emits one [RoleCreated] event. *)
Theorem create_role_effect (s s' : Store) (caller : Pubkey) (role_name : string)
    (perms : list Permission) (now : Z) (evs : list Event) :
  create_role s caller role_name perms now = Ok (s', evs) →
  roles s' = <[role_name := {| name := role_name; permissions := perms;
                              created_at := now |}]> (roles s) ∧
  load_role s' (ARole role_name) =
    Ok {| name := role_name; permissions := perms; created_at := now |} ∧
  user_roles s' = user_roles s ∧
  (∃ st st', rbac_state s = Some st ∧ rbac_state s' = Some st' ∧
     admin st' = admin st ∧ role_count st' = role_count st + 1 ∧
     user_count st' = user_count st) ∧
  evs = [RoleCreated role_name perms now].
Proof.
  intros H. unfold create_role in H. tx_inv. cbn.
  split_and!; try done.
  - unfold load_role; cbn. by rewrite lookup_insert_eq.
  - eexists _, _. split_and!; try done.
Qed.

Lemma create_role_effect_witness :
  ∃ s' evs, create_role demo_init 1%N "editor" [Read] 104 = Ok (s', evs) ∧
    load_role s' (ARole "editor") =
      Ok {| name := "editor"; permissions := [Read]; created_at := 104 |}.
Proof.
  destruct (create_role demo_init 1%N "editor" [Read] 104) as [[s' evs]|e] eqn:E;
    [|vm_compute in E; discriminate].
  exists s', evs. split; [done|].
  apply (create_role_effect demo_init s' 1%N "editor" [Read] 104 evs E).
Defined.

(** ** [assign_role] *)

Lemma assign_role_run (s : Store) (st : RbacState) (r : Role)
    (caller u : Pubkey) (role_name : string) (now : Z) :
  reachable s →
  rbac_state s = Some st →
  roles s !! role_name = Some r →
  user_roles s !! u = None →
  Z.max 0 (rent_exempt (8 + UserRole_SIZE) - bal s (AUserRole u))
    ≤ bal s (AWallet caller) →
  user_count st + 1 < 2 ^ 32 →
  ∃ s', assign_role s caller u role_name now =
          Ok (s', [RoleAssigned u role_name caller now]) ∧
    user_roles s' = <[u := {| user := u; role := role_name; assigned_at := now;
                              assigned_by := caller |}]> (user_roles s) ∧
    roles s' = roles s ∧
    rbac_state s' = Some {| admin := admin st; role_count := role_count st;
                            user_count := user_count st + 1 |}.
Proof.
  intros Hs Hst Hr Hu Hrent Hc.
  destruct (reachable_inv s Hs) as [Hkey Hlen _ _].
  pose proof (Hkey _ _ Hr) as Hname. pose proof (Hlen _ _ Hr) as Hl.
  cbn in Hname, Hl. unfold MAX_SEED_LEN in Hl.
  unfold assign_role, load_state, load_role, pay_rent, require, u32_incr.
  rewrite Hst, Hr; cbn.
  rewrite bool_decide_eq_true_2 by done; cbn.
  rewrite (proj2 (Z.leb_le _ _) Hrent); cbn.
  rewrite bool_decide_eq_true_2 by done; cbn.
  rewrite (proj2 (Z.ltb_lt _ _) Hc); cbn.
  rewrite (proj2 (Z.leb_le _ _)); cbn.
  - eexists. split; [reflexivity|]. done.
  - unfold user_role_len, UserRole_SIZE; cbn. lia.
Qed.

(** X3.  In a reachable ledger, [assign_role] by any caller (there is no
    administrator check) succeeds as soon as the ledger is initialised,
    the named role exists, the user has no assignment, the caller can pay
    the rent and [user_count] can be incremented: it stores
    [UserRole { user, role = role_name, assigned_at = now, assigned_by =
    caller }], adds one to [user_count] only, leaves the roles alone and
    emits one [RoleAssigned] event. *)
Theorem assign_role_any_caller (s : Store) (st : RbacState) (r : Role)
    (caller u : Pubkey) (role_name : string) (now : Z) :
  reachable s →
  rbac_state s = Some st →
  roles s !! role_name = Some r →
  user_roles s !! u = None →
  Z.max 0 (rent_exempt (8 + UserRole_SIZE) - bal s (AUserRole u))
    ≤ bal s (AWallet caller) →
  user_count st + 1 < 2 ^ 32 →
  ∃ s', assign_role s caller u role_name now =
          Ok (s', [RoleAssigned u role_name caller now]) ∧
    user_roles s' = <[u := {| user := u; role := role_name; assigned_at := now;
                              assigned_by := caller |}]> (user_roles s) ∧
    roles s' = roles s ∧
    rbac_state s' = Some {| admin := admin st; role_count := role_count st;
                            user_count := user_count st + 1 |}.
Proof.
  intros Hs Hst Hr Hu Hrent Hc.
  by apply (assign_role_run s st r caller u role_name now).
Qed.

Lemma assign_role_any_caller_witness :
  ∃ s', assign_role demo_role 2%N 7%N "moderator" 103 =
          Ok (s', [RoleAssigned 7%N "moderator" 2%N 103]) ∧
    user_roles s' = <[7%N := {| user := 7%N; role := "moderator"; assigned_at := 103;
                                assigned_by := 2%N |}]> (user_roles demo_role) ∧
    roles s' = roles demo_role ∧
    rbac_state s' = Some {| admin := 1%N; role_count := 2; user_count := 0 + 1 |}.
Proof.
  apply (assign_role_any_caller demo_role
    {| admin := 1%N; role_count := 2; user_count := 0 |}
    {| name := "moderator"; permissions := [Read; Update]; created_at := 101 |}).
  - do 2 apply reachable_apply_tx. apply reach_genesis.
  - vm_compute; reflexivity.
  - vm_compute; reflexivity.
  - vm_compute; reflexivity.
  - vm_compute. discriminate.
  - cbn; lia.
Defined.

(** X4.  In a reachable ledger [assign_role] never ends with
    [RoleNotFound]: the role account is looked up at the address derived
    from [role_name], and a role is always stored under its own name, so
    the handler's [role.name == role_name] test cannot fail. *)
Theorem assign_role_never_role_not_found (s : Store) (caller u : Pubkey)
    (role_name : string) (now : Z) :
  reachable s →
  assign_role s caller u role_name now ≠ Err (Custom RoleNotFound).
Proof.
  intros Hs. destruct (reachable_inv s Hs) as [Hkey _ _ _].
  unfold assign_role, load_state, load_role, pay_rent, require.
  destruct (rbac_state s) as [st|]; cbn; [|nc].
  destruct (roles s !! role_name) as [r|] eqn:Hr; cbn; [|nc].
  destruct (bool_decide (user_roles s !! u = None)); cbn; [|congruence].
  destruct (_ <=? bal s (AWallet caller)); cbn; [|congruence].
  rewrite bool_decide_eq_true_2 by exact (Hkey _ _ Hr); cbn.
  unfold u32_incr. destruct (_ <? _); cbn; [|congruence].
  destruct (_ <=? UserRole_SIZE); cbn; congruence.
Qed.

Lemma assign_role_never_role_not_found_witness :
  assign_role demo_role 2%N 7%N "nobody" 103 ≠ Err (Custom RoleNotFound).
Proof.
  apply assign_role_never_role_not_found.
  do 2 apply reachable_apply_tx. apply reach_genesis.
Defined.

(** ** Revoke, then assign again *)

(** X5.  In a reachable ledger, once [revoke_role] has closed [u]'s
    assignment, [assign_role] for [u] (by any caller, naming any existing
    role) succeeds again, provided the caller can pay the rent of the new
    account and [user_count] can still be incremented. *)
Theorem revoke_then_reassign (s s' : Store) (c c' u : Pubkey) (ur : UserRole)
    (r : Role) (role_name : string) (now now' : Z) (evs : list Event) :
  reachable s →
  user_roles s !! u = Some ur →
  revoke_role s c u now = Ok (s', evs) →
  roles s !! role_name = Some r →
  rent_exempt (8 + UserRole_SIZE) ≤ bal s' (AWallet c') →
  (∀ st, rbac_state s = Some st → user_count st + 1 < 2 ^ 32) →
  ∃ s'', assign_role s' c' u role_name now' =
           Ok (s'', [RoleAssigned u role_name c' now']).
Proof.
  intros Hs Hu Hrev Hr Hrent Hc.
  destruct (reachable_state_of_user s u ur Hs Hu) as [st Hst].
  assert (Hs' : reachable s') by (eapply (reach_step s (IRevokeRole c u) now); eauto).
  unfold revoke_role in Hrev. tx_inv.
  edestruct (assign_role_run
    {| rbac_state := rbac_state s; roles := roles s;
       user_roles := delete u (user_roles s);
       lamports := <[AUserRole u:=0]>
         (<[AWallet c:=bal s (AWallet c) + bal s (AUserRole u)]> (lamports s)) |}
    st r c' u role_name now') as (s'' & Hrun & _); cbn; try done.
  - apply lookup_delete_eq.
  - unfold bal at 1; cbn. rewrite lookup_insert_eq; cbn.
    rewrite Z.sub_0_r, Z.max_r; [done|]. unfold rent_exempt, UserRole_SIZE. lia.
  - by apply Hc.
  - by exists s''.
Qed.

Lemma revoke_then_reassign_witness :
  ∃ s'', assign_role (apply_tx (IRevokeRole 1%N 5%N) demo_assigned 103) 2%N 5%N
           "moderator" 104 = Ok (s'', [RoleAssigned 5%N "moderator" 2%N 104]).
Proof.
  apply (revoke_then_reassign demo_assigned _ 1%N 2%N 5%N
    {| user := 5%N; role := "moderator"; assigned_at := 102; assigned_by := 1%N |}
    {| name := "moderator"; permissions := [Read; Update]; created_at := 101 |}
    "moderator" 103 104 [RoleRevoked 5%N 1%N 103]).
  - apply demo_assigned_reachable.
  - vm_compute; reflexivity.
  - vm_compute; reflexivity.
  - vm_compute; reflexivity.
  - vm_compute. discriminate.
  - intros st Hst. vm_compute in Hst. injection Hst as <-. cbn. lia.
Defined.

(** ** The [rbac_state] singleton across instructions *)

(** X6.  Once [rbac_state] exists, every successful instruction keeps
    it, never changes [admin], and never decreases [role_count] or
    [user_count]. *)
Theorem exec_state_monotone (i : Instr) (s s' : Store) (st : RbacState) (now : Z)
    (evs : list Event) :
  exec i s now = Ok (s', evs) →
  rbac_state s = Some st →
  ∃ st', rbac_state s' = Some st' ∧ admin st' = admin st ∧
    role_count st ≤ role_count st' ∧ user_count st ≤ user_count st'.
Proof.
  intros H Hst. destruct i; cbn [exec] in H.
  - unfold initialize in H. tx_inv. congruence.
  - unfold create_role in H. tx_inv. rewrite Hst in *. simplify_eq.
    eexists. split_and!; [reflexivity | done | cbn; lia | cbn; lia].
  - unfold assign_role in H. tx_inv. rewrite Hst in *. simplify_eq.
    eexists. split_and!; [reflexivity | done | cbn; lia | cbn; lia].
  - destruct (check_permission s ra ua u permission now) as [[[s0 e0] b0]|] eqn:E;
      cbn in H; [|discriminate].
    unfold check_permission in E. tx_inv. exists st. cbn. split_and!; [done | done | lia | lia].
  - unfold revoke_role in H. tx_inv. exists st. cbn. split_and!; [done | done | lia | lia].
  - unfold execute_action in H. tx_inv. exists st. cbn. split_and!; [congruence | done | lia | lia].
Qed.

Lemma exec_state_monotone_witness :
  ∃ st', rbac_state (apply_tx (IAssignRole 1%N 5%N "moderator") demo_role 102) = Some st' ∧
    admin st' = 1%N ∧ 2 ≤ role_count st' ∧ 0 ≤ user_count st'.
Proof.
  refine (exec_state_monotone (IAssignRole 1%N 5%N "moderator") demo_role _
    {| admin := 1%N; role_count := 2; user_count := 0 |} 102
    [RoleAssigned 5%N "moderator" 1%N 102] _ _);
    vm_compute; reflexivity.
Defined.

(** ** Counters and account stores *)

Lemma exec_counters i s now s' evs :
  inv s → exec i s now = Ok (s', evs) →
  (∀ st, rbac_state s = Some st →
     role_count st = Z.of_nat (size (roles s)) + 1 ∧
     Z.of_nat (size (user_roles s)) ≤ user_count st) →
  (∀ st', rbac_state s' = Some st' →
     role_count st' = Z.of_nat (size (roles s')) + 1 ∧
     Z.of_nat (size (user_roles s')) ≤ user_count st').
Proof.
  intros [_ _ _ Hnone] H IH st' Hst'. destruct i; cbn [exec] in H.
  - unfold initialize in H. tx_inv. cbn in Hst' |- *. injection Hst' as <-.
    destruct (Hnone ltac:(done)) as [-> ->]. rewrite !map_size_empty. cbn. lia.
  - unfold create_role in H. tx_inv. cbn in Hst' |- *. injection Hst' as <-. cbn.
    destruct (IH _ eq_refl) as [IH1 IH2].
    rewrite map_size_insert_None by done. lia.
  - unfold assign_role in H. tx_inv. cbn in Hst' |- *. injection Hst' as <-. cbn.
    destruct (IH _ eq_refl) as [IH1 IH2].
    rewrite map_size_insert_None by done. lia.
  - destruct (check_permission s ra ua u permission now) as [[[s0 e0] b0]|] eqn:E;
      cbn in H; [|discriminate].
    unfold check_permission in E. tx_inv. by apply IH.
  - unfold revoke_role in H. tx_inv. cbn in Hst' |- *.
    destruct (IH _ Hst') as [IH1 IH2].
    rewrite map_size_delete_Some by eauto. lia.
  - unfold execute_action in H. tx_inv. apply IH; congruence.
Qed.

(** X7.  In a reachable, initialised ledger [role_count] is exactly one
    more than the number of [Role] accounts (the seed of [initialize] plus
    one per [create_role]), and [user_count] is at least the number of live
    [UserRole] accounts ([revoke_role] does not decrement it). *)
Theorem counters_track_accounts (s : Store) (st : RbacState) :
  reachable s → rbac_state s = Some st →
  role_count st = Z.of_nat (size (roles s)) + 1 ∧
  Z.of_nat (size (user_roles s)) ≤ user_count st.
Proof.
  intros Hs. revert st. induction Hs as [lam|s i now s' evs Hs IH Hexec].
  - discriminate.
  - eapply exec_counters; eauto using reachable_inv.
Qed.

Lemma counters_track_accounts_witness :
  role_count {| admin := 1%N; role_count := 2; user_count := 1 |}
    = Z.of_nat (size (roles demo_assigned)) + 1 ∧
  Z.of_nat (size (user_roles demo_assigned))
    ≤ user_count {| admin := 1%N; role_count := 2; user_count := 1 |}.
Proof.
  apply counters_track_accounts; [apply demo_assigned_reachable |
    vm_compute; reflexivity].
Defined.

Lemma reachable_assignment_role s k ur :
  reachable s → user_roles s !! k = Some ur → ∃ r, roles s !! role ur = Some r.
Proof.
  intros Hs. revert k ur. induction Hs as [lam|s i now s' evs Hs IH Hexec];
    intros k ur Hk; [discriminate|].
  destruct i; cbn [exec] in Hexec.
  - unfold initialize in Hexec. tx_inv. by eapply IH.
  - unfold create_role in Hexec. tx_inv. cbn in Hk |- *.
    destruct (IH _ _ Hk) as [r Hr]. exists r.
    rewrite lookup_insert_ne; [done|]. intros ->. congruence.
  - unfold assign_role in Hexec. tx_inv. cbn in Hk |- *.
    apply lookup_insert_Some in Hk as [[<- <-]|[_ Hk]]; cbn; eauto.
  - destruct (check_permission s ra ua u permission now) as [[[s0 e0] b0]|] eqn:E;
      cbn in Hexec; [|discriminate].
    unfold check_permission in E. tx_inv. by eapply IH.
  - unfold revoke_role in Hexec. tx_inv. cbn in Hk |- *.
    apply lookup_delete_Some in Hk as [_ Hk]. by eapply IH.
  - unfold execute_action in Hexec. tx_inv. by eapply IH.
Qed.

(** ** Decisions for an assigned user *)

(** X8.  In a reachable ledger, for a user [u] with a live assignment,
    [check_permission] on [u]'s assignment account and the role account
    it names never fails: the named role exists, the ledger is unchanged,
    and the result is [permission ∈ role.permissions], reported in one
    [PermissionChecked] event. *)
Theorem check_permission_assigned_total (s : Store) (u : Pubkey) (ur : UserRole)
    (p : Permission) (now : Z) :
  reachable s → user_roles s !! u = Some ur →
  ∃ r, roles s !! role ur = Some r ∧
    check_permission s (ARole (role ur)) (AUserRole u) u p now =
      Ok (s, [PermissionChecked u p (contains p (permissions r)) now],
          contains p (permissions r)).
Proof.
  intros Hs Hu. destruct (reachable_assignment_role s u ur Hs Hu) as [r Hr].
  destruct (reachable_inv s Hs) as [Hkey _ Hukey _].
  exists r. split; [done|].
  unfold check_permission, load_role, load_user_role, require; cbn.
  rewrite Hr, Hu; cbn. rewrite (Hukey _ _ Hu), (Hkey _ _ Hr).
  rewrite !bool_decide_eq_true_2 by done. reflexivity.
Qed.

Lemma check_permission_assigned_total_witness :
  ∃ r, roles demo_assigned !! "moderator" = Some r ∧
    check_permission demo_assigned (ARole "moderator") (AUserRole 5%N) 5%N Admin 103 =
      Ok (demo_assigned, [PermissionChecked 5%N Admin (contains Admin (permissions r)) 103],
          contains Admin (permissions r)).
Proof.
  apply (check_permission_assigned_total demo_assigned 5%N
    {| user := 5%N; role := "moderator"; assigned_at := 102; assigned_by := 1%N |});
    [apply demo_assigned_reachable | vm_compute; reflexivity].
Defined.

(** ** What a successful decision implies *)

(** X9.  [execute_action] succeeds only on the caller's own assignment
    account and the role account that assignment names, only when the
    action's required permission is in that role, and then it changes no
    account and emits exactly one [ActionExecuted] event carrying the
    caller, the action and the required permission. *)
Theorem execute_action_success (s s' : Store) (ra ua : Addr) (caller : Pubkey)
    (action : Action) (now : Z) (evs : list Event) :
  execute_action s ra ua caller action now = Ok (s', evs) →
  ∃ ur r, ua = AUserRole caller ∧ user_roles s !! caller = Some ur ∧
    ra = ARole (role ur) ∧ roles s !! role ur = Some r ∧
    required_permission_of action ∈ permissions r ∧
    s' = s ∧ evs = [ActionExecuted caller action (required_permission_of action) now].
Proof.
  intros H. unfold execute_action in H. tx_inv.
  match goal with
  | Hra : ARole _ = ARole (role ?ur), Hua : AUserRole _ = AUserRole _ |- _ =>
      injection Hra as Hra; injection Hua as Hua; subst
  end.
  do 2 eexists. split_and!; try done.
  by apply contains_spec.
Qed.

Lemma execute_action_success_witness :
  ∃ ur r, AUserRole 5%N = AUserRole 5%N ∧ user_roles demo_assigned !! 5%N = Some ur ∧
    ARole "moderator" = ARole (role ur) ∧ roles demo_assigned !! role ur = Some r ∧
    required_permission_of UpdateResource ∈ permissions r ∧
    demo_assigned = demo_assigned ∧
    [ActionExecuted 5%N UpdateResource Update 103] =
      [ActionExecuted 5%N UpdateResource (required_permission_of UpdateResource) 103].
Proof.
  apply (execute_action_success demo_assigned demo_assigned (ARole "moderator")
    (AUserRole 5%N) 5%N UpdateResource 103); vm_compute; reflexivity.
Defined.

(** X10.  [check_permission] accepts a pair of accounts only when the
    [user_role] account is the assignment of its own stored user and the
    [role] account is the role that assignment names; the boolean it
    returns is membership of the permission in that role, whichever
    [user] argument was passed. *)
Theorem check_permission_accounts (s s' : Store) (ra ua : Addr) (u : Pubkey)
    (p : Permission) (now : Z) (evs : list Event) (b : bool) :
  check_permission s ra ua u p now = Ok (s', evs, b) →
  ∃ ur r, ua = AUserRole (user ur) ∧ user_roles s !! user ur = Some ur ∧
    ra = ARole (role ur) ∧ roles s !! role ur = Some r ∧
    (b = true ↔ p ∈ permissions r).
Proof.
  intros H. unfold check_permission in H. tx_inv.
  match goal with
  | Hra : ARole _ = ARole (role ?ur), Hua : AUserRole _ = AUserRole _ |- _ =>
      injection Hra as Hra; injection Hua as Hua; subst
  end.
  do 2 eexists. split_and!; try done.
  apply contains_spec.
Qed.

Lemma check_permission_accounts_witness :
  ∃ ur r, AUserRole 5%N = AUserRole (user ur) ∧ user_roles demo_assigned !! user ur = Some ur ∧
    ARole "moderator" = ARole (role ur) ∧ roles demo_assigned !! role ur = Some r ∧
    (true = true ↔ Update ∈ permissions r).
Proof.
  apply (check_permission_accounts demo_assigned demo_assigned (ARole "moderator")
    (AUserRole 5%N) 9%N Update 103 [PermissionChecked 9%N Update true 103] true).
  vm_compute; reflexivity.
Defined.

Lemma revoke_role_closed (s s' : Store) (c u : Pubkey) (now : Z) (evs : list Event) :
  revoke_role s c u now = Ok (s', evs) →
  load_user_role s' (AUserRole u) = Err AccountNotInitialized.
Proof.
  intros H. unfold revoke_role in H. tx_inv.
  unfold load_user_role, load_error, program_owned, bal; cbn.
  rewrite lookup_delete_eq, lookup_insert_eq. reflexivity.
Qed.

(** X11.  After [revoke_role] has closed [u]'s assignment (no data, no
    lamports, owned by the system program again), every
    [check_permission] on [u]'s assignment address and every
    [execute_action] by [u] fails, whatever role account is passed; when
    that role account is a live [Role] (and, for [execute_action], the
    ledger is initialised), the error is [AccountNotInitialized] from the
    closed [user_role] account. *)
Theorem revoked_user_decisions_fail (s s' : Store) (c u : Pubkey) (now : Z)
    (evs : list Event) :
  revoke_role s c u now = Ok (s', evs) →
  (∀ ra u' p now', ∃ e, check_permission s' ra (AUserRole u) u' p now' = Err e) ∧
  (∀ ra action now', ∃ e, execute_action s' ra (AUserRole u) u action now' = Err e) ∧
  (∀ n r u' p now', roles s' !! n = Some r →
     check_permission s' (ARole n) (AUserRole u) u' p now' = Err AccountNotInitialized) ∧
  (∀ n r action now', is_Some (rbac_state s') → roles s' !! n = Some r →
     execute_action s' (ARole n) (AUserRole u) u action now' = Err AccountNotInitialized).
Proof.
  intros H. pose proof (revoke_role_closed s s' c u now evs H) as Hu.
  split_and!.
  - intros ra u' p now'. unfold check_permission. rewrite Hu.
    destruct (load_role s' ra); by eexists.
  - intros ra action now'. unfold execute_action. rewrite Hu.
    destruct (load_state s'); [|by eexists].
    destruct (load_role s' ra); by eexists.
  - intros n r u' p now' Hr. unfold check_permission. rewrite Hu.
    unfold load_role at 1. by rewrite Hr.
  - intros n r action now' [st Hst] Hr. unfold execute_action. rewrite Hu.
    unfold load_state at 1, load_role at 1. by rewrite Hst, Hr.
Qed.

Lemma revoked_user_decisions_fail_witness :
  check_permission (apply_tx (IRevokeRole 1%N 5%N) demo_assigned 103)
    (ARole "moderator") (AUserRole 5%N) 5%N Read 104 = Err AccountNotInitialized.
Proof.
  refine (proj1 (proj2 (proj2 (revoked_user_decisions_fail demo_assigned _ 1%N 5%N 103
    [RoleRevoked 5%N 1%N 103] _))) "moderator"
    {| name := "moderator"; permissions := [Read; Update]; created_at := 101 |}
    5%N Read 104 _); vm_compute; reflexivity.
Defined.




(** ** Conservation of lamports *)

Lemma total_fold_insert (m : gmap Addr Z) (a : Addr) (v : Z) :
  map_fold (λ _ v acc, v + acc) 0 (<[a:=v]> m) =
  map_fold (λ _ v acc, v + acc) 0 m - default 0 (m !! a) + v.
Proof.
  assert (Hcomm : ∀ (i : Addr) (x : Z) (m' : gmap Addr Z) (j1 j2 : Addr) (z1 z2 y : Z),
    j1 ≠ j2 → <[i:=x]> m' !! j1 = Some z1 → <[i:=x]> m' !! j2 = Some z2 →
    z1 + (z2 + y) = z2 + (z1 + y)) by (intros; lia).
  destruct (m !! a) as [x|] eqn:E; cbn.
  - rewrite <- (insert_delete_eq m a v).
    rewrite <- (insert_id m a x E) at 2. rewrite <- (insert_delete_eq m a x).
    rewrite !map_fold_insert_L; try apply Hcomm; try apply lookup_delete_eq.
    lia.
  - rewrite map_fold_insert_L; [lia|apply Hcomm|done].
Qed.

Lemma total_lamports_insert (s : Store) (a : Addr) (v : Z) (s' : Store) :
  lamports s' = <[a:=v]> (lamports s) →
  total_lamports s' = total_lamports s - bal s a + v.
Proof. intros H. unfold total_lamports, bal. rewrite H. apply total_fold_insert. Qed.

Lemma pay_rent_total (s : Store) (payer : Pubkey) (a : Addr) (req : Z) (s' : Store) :
  a ≠ AWallet payer →
  lamports s' = <[a := bal s a + req]>
                  (<[AWallet payer := bal s (AWallet payer) - req]> (lamports s)) →
  total_lamports s' = total_lamports s.
Proof.
  intros Hne Hs'.
  set (s1 := {| rbac_state := None; roles := ∅; user_roles := ∅;
                lamports := <[AWallet payer := bal s (AWallet payer) - req]> (lamports s) |}).
  rewrite (total_lamports_insert s1 a _ s' Hs').
  erewrite (total_lamports_insert s (AWallet payer) _ s1); [|reflexivity].
  assert (bal s1 a = bal s a) as -> by (unfold bal; cbn; by rewrite lookup_insert_ne by congruence).
  lia.
Qed.

(** X13.  No instruction creates or destroys lamports: rent moves from
    the payer's wallet into the new account, and a closed assignment's
    lamports move to the revoking caller's wallet. *)
Theorem exec_conserves_lamports (i : Instr) (s s' : Store) (now : Z)
    (evs : list Event) :
  exec i s now = Ok (s', evs) → total_lamports s' = total_lamports s.
Proof.
  intros H. destruct i; cbn in H.
  - unfold initialize in H. tx_inv.
    eapply pay_rent_total; [|reflexivity]. discriminate.
  - unfold create_role in H. tx_inv.
    eapply pay_rent_total; [|reflexivity]. discriminate.
  - unfold assign_role in H. tx_inv.
    eapply pay_rent_total; [|reflexivity]. discriminate.
  - tx_inv. unfold check_permission in *. tx_inv. done.
  - unfold revoke_role in H. tx_inv.
    set (s1 := {| rbac_state := None; roles := ∅; user_roles := ∅;
                  lamports := <[AWallet caller := bal s (AWallet caller) +
                    bal s (AUserRole u)]> (lamports s) |}).
    erewrite (total_lamports_insert s1 (AUserRole u) 0); [|reflexivity].
    erewrite (total_lamports_insert s (AWallet caller) _ s1); [|reflexivity].
    assert (bal s1 (AUserRole u) = bal s (AUserRole u)) as ->
      by (unfold bal; cbn; by rewrite lookup_insert_ne by discriminate).
    lia.
  - unfold execute_action in H. tx_inv. done.
Qed.

Lemma exec_conserves_lamports_witness :
  total_lamports (apply_tx (IRevokeRole 2%N 5%N) demo_assigned 103) =
  total_lamports demo_assigned.
Proof.
  apply (exec_conserves_lamports (IRevokeRole 2%N 5%N) demo_assigned _ 103
    [RoleRevoked 5%N 2%N 103]).
  vm_compute; reflexivity.
Defined.

(** ** Role accounts are permanent *)

(** X14.  No run of successful instructions removes or rewrites a
    [Role] account once created: the role keeps its name, permissions and
    creation time, and creating it again fails with
    [AccountAlreadyInUse] once [rbac_state] exists and the name fits a
    seed. *)
Theorem role_accounts_permanent (s s' : Store) (n : string) (r : Role) :
  rtc (λ s1 s2, ∃ i now evs, exec i s1 now = Ok (s2, evs)) s s' →
  roles s !! n = Some r →
  roles s' !! n = Some r ∧
  (∀ c perms now, rbac_state s' ≠ None → (String.length n ≤ MAX_SEED_LEN)%nat →
     create_role s' c n perms now = Err AccountAlreadyInUse).
Proof.
  intros Hrun Hn.
  assert (Hr : roles s' !! n = Some r).
  { induction Hrun as [|s1 s2 s3 (i & now & evs & Hx) _ IH]; [done|].
    apply IH. eapply exec_roles_preserved; eassumption. }
  split; [done|].
  intros c perms now Hst Hlen. unfold create_role, load_state.
  destruct (rbac_state s') as [st|]; [|done]. cbn.
  unfold require. rewrite (proj2 (Nat.leb_le _ _) Hlen). cbn.
  rewrite (bool_decide_eq_false_2 (roles s' !! n = None)); [reflexivity|]. congruence.
Qed.

Lemma role_accounts_permanent_witness :
  roles (apply_tx (IRevokeRole 1%N 5%N) demo_assigned 103) !! "moderator" =
    Some {| name := "moderator"; permissions := [Read; Update]; created_at := 101 |} ∧
  (∀ c perms now, rbac_state (apply_tx (IRevokeRole 1%N 5%N) demo_assigned 103) ≠ None →
     (String.length "moderator" ≤ MAX_SEED_LEN)%nat →
     create_role (apply_tx (IRevokeRole 1%N 5%N) demo_assigned 103) c "moderator" perms now =
       Err AccountAlreadyInUse).
Proof.
  apply (role_accounts_permanent demo_assigned).
  - eapply rtc_l; [|apply rtc_refl].
    exists (IRevokeRole 1%N 5%N), 103, [RoleRevoked 5%N 1%N 103].
    vm_compute; reflexivity.
  - vm_compute; reflexivity.
Defined.
